(** * websockets-scaling: a shallow embedding of the two socket servers,
      the test client, the process configuration and the sticky-cookie
      labels of the stack, with the properties proved about them.

    Sources embedded:
    - [e2esimple/server.js]  (module [E2E])
    - [e2esimple/client.js]  (module [Client])
    - the tutorial server of the README, step 1  (module [Tutorial])
    - [stack/docker-compose.yml], service [socket-server]  (module [Stack])

    The socket.io calls the sources make ([io.on], [client.on], [io.emit],
    [console.log], [setInterval]) are modelled by explicit state passing over
    a per-process record: the table of connected sockets, the console and the
    packets written to sockets. The labels of the compose file are read the
    way the proxy reads them: a router rule, a service port and a middleware
    that replaces the path. *)

From Stdlib Require Import Ascii String ZArith List QArith Qround Lia.
From stdpp Require Import base gmap list strings pretty.

Open Scope string_scope.
Open Scope list_scope.

(** ** JavaScript values and socket.io packets *)

(** The values the sources pass to [emit] and [console.log]. *)
#[warnings="-register-all"]
Inductive jsval : Type :=
| JUndefined
| JStr (s : string)
| JNum (n : Z)
| JObj (fields : list (string * jsval)).

(** [Object.keys] of a value; a string has no named fields. *)
Definition js_keys (v : jsval) : list string :=
  match v with
  | JObj fields => fields.*1
  | _ => []
  end.

(** An event packet: [emit(ev, arg)] sends the event name and one argument. *)
Record packet := Packet { ev : string; arg : jsval }.

(** ** The part of socket.io the servers use *)
Module SocketIO.

(** A server-side socket: the cookie its handshake request carried (the
    token a router in front of the server may have set) and the event names
    for which [client.on] registered a listener. *)
Record socket := Socket {
  handshake_cookie : option string;
  listening : list string }.

(** One server process. [connected] is [io.sockets.connected], keyed by
    socket id; [console] collects the argument lists of [console.log];
    [outbox] collects the packets written to sockets, with the recipient. *)
Record node := Node {
  connected : gmap string socket;
  console : list (list jsval);
  outbox : list (string * packet) }.

Definition init : node := Node ∅ [] [].

(** [console.log(args...)] *)
Definition console_log (args : list jsval) (n : node) : node :=
  Node (connected n) (console n ++ [args]) (outbox n).

(** [client.on(e, listener)] on the socket with id [c]. *)
Definition client_on (c e : string) (n : node) : node :=
  Node (alter (λ s, Socket (handshake_cookie s) (listening s ++ [e])) c (connected n))
       (console n) (outbox n).

(** The packets one broadcast writes: one per connected socket. *)
Definition broadcast (p : packet) (socks : gmap string socket) : list (string * packet) :=
  (λ kv, (kv.1, p)) <$> map_to_list socks.

(** The packet [pk] is written to every socket connected to this process. *)
Definition deliver (pk : packet) (n : node) : node :=
  Node (connected n) (console n) (outbox n ++ broadcast pk (connected n)).

(** [io.emit(e, a)] with the default in-memory adapter: every socket
    connected to this process gets the packet. *)
Definition io_emit (e : string) (a : jsval) (n : node) : node :=
  Node (connected n) (console n) (outbox n ++ broadcast (Packet e a) (connected n)).

(** The server accepts a connection: the socket is entered in [connected]
    under its id before the ['connection'] listener runs. *)
Definition accept (c : string) (tok : option string) (n : node) : node :=
  Node (<[c := Socket tok []]> (connected n)) (console n) (outbox n).

(** The socket [c] goes away. *)
Definition disconnect (c : string) (n : node) : node :=
  Node (delete c (connected n)) (console n) (outbox n).

(** An incoming packet [(e, a)] from socket [c] runs [listener] once for
    each listener registered for [e] on that socket, and nothing otherwise. *)
Definition dispatch (c e : string) (a : jsval)
    (listener : string → jsval → node → node) (n : node) : node :=
  match connected n !! c with
  | Some s => foldr (λ _ acc, listener c a acc) n (filter (λ e', e' = e) (listening s))
  | None => n
  end.

(** How many listeners socket [c] has for event [e]. *)
Definition listeners_for (c e : string) (n : node) : nat :=
  match connected n !! c with
  | Some s => length (filter (λ e', e' = e) (listening s))
  | None => 0
  end.

(** The packets socket [d] has been sent, oldest first. *)
Definition received (d : string) (out : list (string * packet)) : list packet :=
  (filter (λ rp, rp.1 = d) out).*2.

End SocketIO.

(** The arguments of the [console.log] call of both message listeners. *)
Definition message_line (c : string) (message : jsval) : list jsval :=
  [JStr "Message from the client:"; JStr c; JStr "->"; message].

(** ** e2esimple/server.js *)
Module E2E.
Import SocketIO.

Definition socketPort : Z := 5000.

(** The listener of ['testMsg']. *)
Definition on_testMsg (c : string) (message : jsval) (n : node) : node :=
  console_log (message_line c message) n.

(** The listener of ['connection']. *)
Definition on_connection (c : string) (n : node) : node :=
  let n1 := console_log [JStr "New incoming Connection from"; JStr c] n in
  let n2 := client_on c "testMsg" n1 in
  io_emit "broadcast" (JStr "A broadcast message") n2.

(** What can happen to the server process. *)
Inductive event :=
| Connect (c : string) (tok : option string)
| Message (c e : string) (a : jsval)
| Disconnect (c : string).

Definition step (n : node) (x : event) : node :=
  match x with
  | Connect c tok => on_connection c (accept c tok n)
  | Message c e a => dispatch c e a on_testMsg n
  | Disconnect c => disconnect c n
  end.

Definition run (xs : list event) : node := foldl step init xs.

(** The packet of the connection listener. *)
Definition broadcast_packet : packet := Packet "broadcast" (JStr "A broadcast message").

(** The events that are the acceptance of a connection. *)
Definition is_connect (x : event) : bool :=
  match x with
  | Connect _ _ => true
  | _ => false
  end.

(** The events that connect or disconnect the socket [d]. *)
Definition concerns (d : string) (x : event) : bool :=
  match x with
  | Connect c _ | Disconnect c => bool_decide (c = d)
  | Message _ _ _ => false
  end.

(** The clients [cs], each with the token of its handshake, connect one
    after the other. *)
Definition connects (cs : list (string * option string)) : list event :=
  (λ ct, Connect ct.1 ct.2) <$> cs.

End E2E.

(** ** e2esimple/client.js *)
Module Client.

(** The client asks for the websocket transport only. *)
Definition transports : list string := ["websocket"].

Definition url : string := "http://localhost:5000".

(** The listener of ['connect']: one console line, then one packet sent to
    the server. The result is the console line and the packets emitted. *)
Definition on_connect : list jsval * list packet :=
  ([JStr "Connected!"], [Packet "testMsg" (JStr "a message")]).

End Client.

(** ** client.js run against server.js *)
Module EndToEnd.

(** What one run of the client is to the server: the connection, then the
    packets the ['connect'] listener of the client emits. *)
Definition session (c : string) (tok : option string) : list E2E.event :=
  E2E.Connect c tok :: ((λ p, E2E.Message c (ev p) (arg p)) <$> Client.on_connect.2).

(** The clients [cs] run one after the other. *)
Definition sessions (cs : list (string * option string)) : list E2E.event :=
  concat ((λ ct, session ct.1 ct.2) <$> cs).

(** The two console lines the server writes for one run of the client. *)
Definition session_lines (c : string) : list (list jsval) :=
  [[JStr "New incoming Connection from"; JStr c]; message_line c (JStr "a message")].

End EndToEnd.

(** ** The tutorial server (README, step 1) *)
Module Tutorial.
Import SocketIO.

(** An entry of [os.networkInterfaces()]. *)
Record iface := Iface { family : string; internal : bool; address : string }.

(** [Object.values(ifaces).flat().find(...).address]: the address of the
    first external IPv4 interface. With no such interface [find] gives
    [undefined] and reading [.address] throws: [None]. *)
Definition privateIp (ifaces : list (string * list iface)) : option string :=
  address <$> List.find (λ val, String.eqb (family val) "IPv4" && negb (internal val))
                        (concat ifaces.*2).


(** The offset in the arithmetic of binary64 numbers. The product of the
    draw [m / 2^e] with ten is [10 m / 2^e], rounded to 53 significant bits,
    to the nearest and to the even on a tie. [round53] rounds the
    numerator. *)
Definition round53 (n : Z) : Z :=
  let s := (Z.log2 n - 52)%Z in
  if (s <=? 0)%Z then n
  else
    let q := (n / 2 ^ s)%Z in
    let rem := (n mod 2 ^ s)%Z in
    let half := (2 ^ (s - 1))%Z in
    ((if (half <? rem)%Z || ((rem =? half)%Z && Z.odd q) then q + 1 else q) * 2 ^ s)%Z.

Definition randomOffset64 (m e : Z) : Z := (round53 (m * 10) / 2 ^ e)%Z.

(** [Math.floor(Math.random() * 10)], for the draw [u] of [Math.random()]:
    the product is the binary64 product. *)
Definition randomOffset (u : Q) : Z :=
  randomOffset64 (Qnum u) (Z.log2 (Z.pos (Qden u))).

(** [(30+randomOffset) * Math.pow(10,3)] *)
Definition intervalOffset (u : Q) : Z := ((30 + randomOffset u) * 10 ^ 3)%Z.

(** The offset there would be without rounding: the floor of ten times the
    draw, as a number. The script does not compute it; [randomOffset] is
    compared with it. *)
Definition exactOffset (u : Q) : Z := Qfloor (u * 10).

Definition socketPort : Z := 5000.

(** The [path] option of the socket.io server. *)
Definition path : string := "/".

(** [process.env.REDIS_HOST || 'localhost']: an unset or empty variable
    gives the default. *)
Definition redisHost (env : gmap string string) : string :=
  match env !! "REDIS_HOST" with
  | Some h => if decide (h = "") then "localhost" else h
  | None => "localhost"
  end.

(** The options given to [redisAdapter]. *)
Record adapter_opts := AdapterOpts { host : string; port : Z }.

Definition redisAdapter_opts (env : gmap string string) : adapter_opts :=
  AdapterOpts (redisHost env) 6379.

(** A running server process: the constants computed when the script
    starts, the timer of [setInterval] (its delay and the time, in ms since
    start, of its next run) and the socket.io state. *)
Record process := Process {
  ip : string;
  adapter : adapter_opts;
  listen : Z;
  delay : Z;
  due : Z;
  io : node }.

(** The script from its first line to [socketServer.listen]: what it reads
    is the environment, the network interfaces and one draw of
    [Math.random()]. *)
Definition boot (env : gmap string string) (ifaces : list (string * list iface))
    (u : Q) : option process :=
  a ← privateIp ifaces;
  Some (Process a (redisAdapter_opts env) socketPort
                (intervalOffset u) (intervalOffset u) init).

(** The listener of ['test000']. *)
Definition on_test000 (c : string) (message : jsval) (n : node) : node :=
  console_log (message_line c message) n.

(** The listener of ['connection']. *)
Definition on_connection (c : string) (n : node) : node :=
  let n1 := console_log [JStr "New incoming Connection from"; JStr c] n in
  client_on c "test000" n1.

(** The template string of the timer callback. *)
Definition log0 (privateIp : string) : string :=
  ("I am the host: " ++ privateIp ++ ". I am healty.")%string.

(** The packet one run of the timer callback of a process emits. *)
Definition interval_packet (p : process) : packet :=
  Packet "okok" (JStr (log0 (ip p))).

(** What the timer callback does before its [io.emit]: the console line.
    The timer falls due again one delay later. *)
Definition on_interval (p : process) : process :=
  Process (ip p) (adapter p) (listen p) (delay p) (due p + delay p)
          (console_log [JStr (log0 (ip p))] (io p)).

Definition with_io (f : node → node) (p : process) : process :=
  Process (ip p) (adapter p) (listen p) (delay p) (due p) (f (io p)).

(** One run of the timer callback, in the process that runs it: the
    console line, then [io.emit("okok", log0)], which writes the packet to
    the sockets of this process. The adapter is also handed the packet for
    the other processes, see [publishes]. *)
Definition tick (p : process) : process :=
  with_io (io_emit "okok" (JStr (log0 (ip p)))) (on_interval p).

(** The processes of the stack (the replicas of [socket-server]). *)
Abbreviation cluster := (list process).

(** What can happen to a process while it runs. [Remote pk]: the Redis
    adapter of the process receives the packet [pk], which another process
    published, and forwards it to the sockets of the process. Whether and
    when this happens is up to Redis: when Redis cannot be reached it does
    not happen. *)
Inductive event :=
| Connect (c : string) (tok : option string)
| Message (c e : string) (a : jsval)
| Disconnect (c : string)
| Interval
| Remote (pk : packet).

(** Event [x] at the process with index [i]. *)
Definition step (cl : cluster) (ix : nat * event) : cluster :=
  match ix with
  | (i, Connect c tok) => alter (with_io (λ n, on_connection c (accept c tok n))) i cl
  | (i, Message c e a) => alter (with_io (dispatch c e a on_test000)) i cl
  | (i, Disconnect c) => alter (with_io (disconnect c)) i cl
  | (i, Interval) => alter tick i cl
  | (i, Remote pk) => alter (with_io (deliver pk)) i cl
  end.

Definition run (cl : cluster) (xs : list (nat * event)) : cluster := foldl step cl xs.

(** What an event hands to the Redis adapter to publish, with the options
    the adapter was made with: the packet of [io.emit], that is of a run of
    the timer callback. *)
Definition publishes (cl : cluster) (ix : nat * event) : list (adapter_opts * packet) :=
  match ix with
  | (i, Interval) =>
      match cl !! i with
      | Some p => [(adapter p, interval_packet p)]
      | None => []
      end
  | _ => []
  end.

(** The runs of the timer callback of process [i] among the events [xs]. *)
Definition is_interval_at (i : nat) (ix : nat * event) : bool :=
  match ix with
  | (j, Interval) => bool_decide (j = i)
  | _ => false
  end.

Definition intervals_at (i : nat) (xs : list (nat * event)) : nat :=
  length (filter (λ ix, is_interval_at i ix) xs).



(** The events that connect or disconnect the socket [d] of process [j]. *)
Definition concerns (j : nat) (d : string) (ix : nat * event) : bool :=
  match ix with
  | (i, Connect c _) | (i, Disconnect c) => bool_decide (i = j ∧ c = d)
  | _ => false
  end.

(** The packets the events [xs] have process [j] write to its sockets, in
    order: the packet of each run of its own timer callback and each packet
    its adapter receives. *)
Definition written_at (j : nat) (cl : cluster) (xs : list (nat * event)) : list packet :=
  omap (λ ix, match ix with
              | (i, Interval) => if decide (i = j) then interval_packet <$> cl !! j else None
              | (i, Remote pk) => if decide (i = j) then Some pk else None
              | _ => None
              end) xs.

(** The packets socket [d] of process [j] has been sent. *)
Definition received_at (j : nat) (d : string) (cl : cluster) : list packet :=
  match cl !! j with
  | Some p => received d (outbox (io p))
  | None => []
  end.

End Tutorial.

(** ** stack/docker-compose.yml, service socket-server *)
Module Stack.

Definition replicas : nat := 2.

Definition environment : list string := ["REDIS_HOST=redis"].

Definition labels : list string :=
  ["traefik.enable=true";
   "traefik.http.routers.socket-router.rule=PathPrefix(`/wsk`)";
   "traefik.http.services.service01.loadbalancer.server.port=5000";
   "traefik.http.services.service01.loadbalancer.sticky.cookie=true";
   "traefik.http.services.service01.loadbalancer.sticky.cookie.name=io";
   "traefik.http.services.service01.loadbalancer.sticky.cookie.httponly=true";
   "traefik.http.services.service01.loadbalancer.sticky.cookie.secure=true";
   "traefik.http.services.service01.loadbalancer.sticky.cookie.samesite=lax";
   "traefik.http.middlewares.socket-replaceprefix.replacepath.path=/";
   "traefik.http.routers.socket-router.middlewares=socket-replaceprefix@docker"].

(** An entry [key=value] of the file: the key stands before the first [=],
    the value after it. This is how the entries of [environment] and
    [labels] are read by what runs the stack, not a function of the
    repository. *)
Definition key_value (s : string) : option (string * string) :=
  match String.index 0 "=" s with
  | Some i => Some (String.substring 0 i s,
                    String.substring (S i) (String.length s - S i) s)
  | None => None
  end.

(** The environment of a replica, as [process.env] shows it. *)
Definition process_env : gmap string string := list_to_map (omap key_value environment).

Definition sticky_cookie : string :=
  "traefik.http.services.service01.loadbalancer.sticky.cookie".

(** The option a label sets on the sticky cookie of the service: the empty
    name for the label that switches the cookie on, the name after the dot
    for the others; [None] for a label about something else. *)
Definition cookie_option_of (kv : string * string) : option (string * string) :=
  if String.eqb kv.1 sticky_cookie then Some ("", kv.2)
  else if String.prefix (sticky_cookie ++ ".")%string kv.1
  then Some (String.substring (S (String.length sticky_cookie))
               (String.length kv.1 - S (String.length sticky_cookie)) kv.1, kv.2)
  else None.

Definition cookie_options : list (string * string) :=
  omap cookie_option_of (omap key_value labels).

Definition cookie_option (o : string) : option string :=
  snd <$> List.find (λ ov, String.eqb ov.1 o) cookie_options.

(** The services of the stack. *)
Definition services : list string := ["socket-server"; "traefik-reverse-proxy"; "redis"].

(** The value the labels give the key [k]. *)
Definition label (k : string) : option string :=
  snd <$> List.find (λ kv, String.eqb kv.1 k) (omap key_value labels).

(** The path the rule [PathPrefix(`p`)] names: what stands between the
    backquotes. *)
Definition path_prefix (rule : string) : option string :=
  if String.prefix "PathPrefix(`" rule then
    let rest := String.substring 12 (String.length rule - 12) rule in
    i ← String.index 0 "`" rest; Some (String.substring 0 i rest)
  else None.

(** The middleware the reference [name@provider] names. *)
Definition middleware_name (ref : string) : option string :=
  i ← String.index 0 "@" ref; Some (String.substring 0 i ref).

(** The path of a request after the middleware of the router: the
    [replacepath] middleware puts its path in the place of the path of the
    request. *)
Definition replaced_path (path : string) : string :=
  default path
    (ref ← label "traefik.http.routers.socket-router.middlewares";
     name ← middleware_name ref;
     label ("traefik.http.middlewares." ++ name ++ ".replacepath.path")%string).

(** The command of the service traefik-reverse-proxy. *)
Definition proxy_command : list string :=
  ["--api.insecure=true"; "--providers.docker.exposedByDefault=false"; "--accesslog"].

(** Whether the proxy routes to a container that has no [traefik.enable]
    label: it does unless its command says otherwise. *)
Definition exposed_by_default : bool :=
  negb (bool_decide ("--providers.docker.exposedByDefault=false" ∈ proxy_command)).

(** Where the labels send a request with the path [path]: the port of the
    service and the path of the request handed to it, or nothing when the
    service is not exposed or the rule of the router does not match. *)
Definition route (path : string) : option (string * string) :=
  if exposed_by_default || bool_decide (label "traefik.enable" = Some "true") then
    rule ← label "traefik.http.routers.socket-router.rule";
    pre ← path_prefix rule;
    if String.prefix pre path then
      port ← label "traefik.http.services.service01.loadbalancer.server.port";
      Some (port, replaced_path path)
    else None
  else None.

End Stack.

(** ** A two-replica stack, as in the results section of the README *)
Module Scenario.
Import SocketIO Tutorial.

Definition ifaces1 : list (string * list iface) :=
  [("lo", [Iface "IPv4" true "127.0.0.1"]);
   ("eth0", [Iface "IPv6" false "fe80::1"; Iface "IPv4" false "10.0.2.10"])].

Definition ifaces2 : list (string * list iface) :=
  [("lo", [Iface "IPv4" true "127.0.0.1"]);
   ("eth0", [Iface "IPv4" false "10.0.2.11"])].

(** The environment the compose file gives the replicas. *)
Definition env : gmap string string := Stack.process_env.

Definition server1 : process :=
  Process "10.0.2.10" (AdapterOpts "redis" 6379) 5000 35000 35000 init.

Definition server2 : process :=
  Process "10.0.2.11" (AdapterOpts "redis" 6379) 5000 32000 32000 init.

(** Client X is connected to the first replica, client Y to the second. *)
Definition stack : cluster :=
  run [server1; server2] [(0, Connect "X" (Some "io=1a2b")); (1, Connect "Y" None)].

End Scenario.

(** ** The vocabulary of the properties *)


(** The fields of a presence record. *)
Definition presence_fields : list string :=
  ["nodeId"; "health"; "connectionCount"; "timestamp"].

(** A value with exactly the fields of a presence record. *)
Definition is_presence_record (v : jsval) : Prop := js_keys v ≡ₚ presence_fields.



(** The token socket [d] of a server presented in its handshake, if [d] is
    connected. *)
Definition token (d : string) (n : SocketIO.node) : option (option string) :=
  SocketIO.handshake_cookie <$> SocketIO.connected n !! d.

Definition token_at (j : nat) (d : string) (cl : Tutorial.cluster) : option (option string) :=
  p ← cl !! j; token d (Tutorial.io p).

(** * Properties *)

(** The two replicas are what the script starts as, with the environment of
    the compose file and the draws 1/2 and 1/4. *)
Lemma server1_boots :
  Tutorial.boot Scenario.env Scenario.ifaces1 (1 # 2) = Some Scenario.server1.
Proof. reflexivity. Qed.

Lemma server2_boots :
  Tutorial.boot Scenario.env Scenario.ifaces2 (1 # 4) = Some Scenario.server2.
Proof. reflexivity. Qed.

(** ** Facts about broadcasts and what a socket has been sent *)
Section Received.
Import SocketIO.

Lemma received_app d (o1 o2 : list (string * packet)) :
  received d (o1 ++ o2) = received d o1 ++ received d o2.
Proof. unfold received. by rewrite filter_app, fmap_app. Qed.

Lemma received_to_each d p (l : list (string * socket)) :
  received d ((λ kv, (kv.1, p)) <$> l) = (λ _, p) <$> filter (λ kv, kv.1 = d) l.
Proof.
  unfold received. induction l as [|[k s] l IH]; [done|].
  rewrite fmap_cons, !filter_cons. simpl.
  destruct (decide (k = d)); simpl; [f_equal|]; exact IH.
Qed.

Lemma filter_key_absent d (l : list (string * socket)) :
  d ∉ l.*1 → filter (λ kv, kv.1 = d) l = [].
Proof.
  induction l as [|[k s] l IH]; [done|]. simpl. intros Hd.
  rewrite filter_cons. simpl. destruct (decide (k = d)) as [->|].
  - exfalso. apply Hd. left.
  - apply IH. intros ?. apply Hd. by right.
Qed.

Lemma filter_key_present d s (l : list (string * socket)) :
  NoDup l.*1 → (d, s) ∈ l → filter (λ kv, kv.1 = d) l = [(d, s)].
Proof.
  induction l as [|[k s'] l IH]; simpl; intros Hnd Hin.
  - by apply elem_of_nil in Hin.
  - apply NoDup_cons in Hnd as [Hk Hnd]. rewrite filter_cons. simpl.
    apply elem_of_cons in Hin as [Heq|Hin].
    + injection Heq as <- <-. rewrite decide_True by done.
      by rewrite filter_key_absent.
    + destruct (decide (k = d)) as [->|].
      * exfalso. apply Hk. apply list_elem_of_fmap. by exists (d, s).
      * by apply IH.
Qed.

(** One broadcast gives each connected socket the packet once and no one
    else anything. *)
Lemma received_broadcast d p (socks : gmap string socket) :
  received d (broadcast p socks) =
  match socks !! d with Some _ => [p] | None => [] end.
Proof.
  unfold broadcast. rewrite received_to_each.
  destruct (socks !! d) as [s|] eqn:Hd.
  - rewrite (filter_key_present d s); [done| |].
    + apply NoDup_fst_map_to_list.
    + by apply elem_of_map_to_list.
  - rewrite filter_key_absent; [done|].
    intros Hin. apply list_elem_of_fmap in Hin as [[k s] [-> Hin]].
    apply elem_of_map_to_list in Hin. simpl in Hd. congruence.
Qed.

(** A listener that only logs: the dispatch of a packet adds one console
    line per registered listener and changes nothing else. *)
Lemma dispatch_log c e a (line : string → jsval → list jsval) n :
  dispatch c e a (λ c a, console_log (line c a)) n =
  Node (connected n) (console n ++ replicate (listeners_for c e n) (line c a)) (outbox n).
Proof.
  unfold dispatch, listeners_for. destruct (connected n !! c) as [s|].
  - induction (filter (λ e', e' = e) (listening s)) as [|x l IH]; simpl.
    + rewrite app_nil_r. by destruct n.
    + rewrite IH. unfold console_log. simpl. f_equal.
      rewrite <- app_assoc. f_equal.
      change (line c a :: replicate (length l) (line c a))
        with (replicate (S (length l)) (line c a)).
      by rewrite replicate_S_end.
  - simpl. rewrite app_nil_r. by destruct n.
Qed.

End Received.

(** ** e2esimple/server.js: the broadcast on connection *)

(** C9. When the e2esimple server accepts a connection, the connection
    listener emits the event "broadcast" with the string 'A broadcast message'
    once to every socket connected at that moment, the new one included, and
    to no one else; the receipt of a client message, whatever it is, writes
    no packet at all. *)
Theorem e2e_connection_broadcast (n : SocketIO.node) (c : string) (tok : option string) :
  let n' := E2E.step n (E2E.Connect c tok) in
  let p := Packet "broadcast" (JStr "A broadcast message") in
  is_Some (SocketIO.connected n' !! c) ∧
  SocketIO.outbox n' = SocketIO.outbox n ++ SocketIO.broadcast p (SocketIO.connected n') ∧
  SocketIO.received c (SocketIO.outbox n') = SocketIO.received c (SocketIO.outbox n) ++ [p] ∧
  (∀ d, SocketIO.received d (SocketIO.outbox n') =
        SocketIO.received d (SocketIO.outbox n) ++
        match SocketIO.connected n' !! d with Some _ => [p] | None => [] end) ∧
  (∀ c' e a, SocketIO.outbox (E2E.step n (E2E.Message c' e a)) = SocketIO.outbox n).
Proof.
  intros n' p.
  assert (Hc : is_Some (SocketIO.connected n' !! c)).
  { subst n'. simpl. rewrite lookup_alter_eq, lookup_insert_eq. by eexists. }
  assert (Hr : ∀ d, SocketIO.received d (SocketIO.outbox n') =
        SocketIO.received d (SocketIO.outbox n) ++
        match SocketIO.connected n' !! d with Some _ => [p] | None => [] end).
  { intros d. subst n'. simpl. rewrite received_app. f_equal.
    apply received_broadcast. }
  split; [done|]. split; [done|]. split.
  - rewrite Hr. by destruct Hc as [s ->].
  - split; [done|]. intros c' e a. simpl. unfold E2E.on_testMsg. by rewrite dispatch_log.
Qed.

(** ** Handling a client message *)











(** ** The delivery step and the origin of a message *)

(** C2, as the claim states it, fails: connection C sends 'testMsg' to the
    e2esimple server, which has no switch to exclude the origin; C is sent
    the message not once but never. The one packet C has been sent is the
    broadcast of its own connection, from before the message. *)
Lemma origin_receives_message_zero_times :
  let n := E2E.run [E2E.Connect "C" None] in
  let n' := E2E.step n (E2E.Message "C" "testMsg" (JStr "a message")) in
  SocketIO.received "C" (SocketIO.outbox n) = [Packet "broadcast" (JStr "A broadcast message")] ∧
  SocketIO.received "C" (SocketIO.outbox n') = [Packet "broadcast" (JStr "A broadcast message")] ∧
  SocketIO.console n' =
    [[JStr "New incoming Connection from"; JStr "C"];
     [JStr "Message from the client:"; JStr "C"; JStr "->"; JStr "a message"]].
Proof. split; [|split]; reflexivity. Qed.

(** C2, amended. Neither server has an exclude-origin setting. A message
    from a connection C is delivered to no connection, C included: on every
    replica each socket has been sent after the message exactly what it had
    been sent before. The delivery step the servers do have, [io.emit], has
    one mode: it writes the packet exactly once to each connected socket,
    and to no other; so the broadcast that the connection of C sets off in
    the e2esimple server reaches C itself, once. *)
Theorem message_delivered_to_nobody_emit_once_to_each :
  (∀ n c e a d,
     SocketIO.received d (SocketIO.outbox (E2E.step n (E2E.Message c e a))) =
     SocketIO.received d (SocketIO.outbox n)) ∧
  (∀ cl i c e a j d,
     Tutorial.received_at j d (Tutorial.step cl (i, Tutorial.Message c e a)) =
     Tutorial.received_at j d cl) ∧
  (∀ n e a d,
     SocketIO.received d (SocketIO.outbox (SocketIO.io_emit e a n)) =
     SocketIO.received d (SocketIO.outbox n) ++
     match SocketIO.connected n !! d with Some _ => [Packet e a] | None => [] end) ∧
  (∀ n c tok,
     SocketIO.received c (SocketIO.outbox (E2E.step n (E2E.Connect c tok))) =
     SocketIO.received c (SocketIO.outbox n) ++ [Packet "broadcast" (JStr "A broadcast message")]).
Proof.
  split; [|split; [|split]]; cycle 3.
  { intros n c tok. simpl. rewrite received_app, received_broadcast.
    by rewrite lookup_alter_eq, lookup_insert_eq. }
  - intros n c e a d. simpl. unfold E2E.on_testMsg. by rewrite dispatch_log.
  - intros cl i c e a j d. unfold Tutorial.received_at, Tutorial.step.
    rewrite list_lookup_alter. destruct (decide (i = j)) as [->|]; [|done].
    destruct (cl !! j) as [p|]; [|done]. simpl.
    unfold Tutorial.on_test000. by rewrite dispatch_log.
  - intros n e a d. simpl. rewrite received_app. f_equal. apply received_broadcast.
Qed.

(** ** The timer callback of the tutorial server *)

Lemma string_is_no_presence_record s : ¬ is_presence_record (JStr s).
Proof. intros H. apply Permutation_length in H. discriminate. Qed.

(** A run of the timer callback of process [i] is a step of process [i]
    alone. *)
Lemma interval_lookup (cl : Tutorial.cluster) i j :
  Tutorial.step cl (i, Tutorial.Interval) !! j =
  if decide (i = j) then Tutorial.tick <$> cl !! j else cl !! j.
Proof.
  unfold Tutorial.step. rewrite list_lookup_alter.
  by destruct (decide (i = j)) as [->|].
Qed.

(** C4, as the claim states it, fails: in the two-replica stack the timer
    of the first replica runs once. What it emits is the event 'okok' with a
    string, which has none of the fields of a presence record; it is written
    to the socket of the client X itself, and it is that same packet that
    the adapter is handed. *)
Lemma presence_tick_sends_string_to_clients :
  let cl' := Tutorial.step Scenario.stack (0, Tutorial.Interval) in
  let p := Packet "okok" (JStr "I am the host: 10.0.2.10. I am healty.") in
  Tutorial.received_at 0 "X" cl' = [p] ∧
  Tutorial.publishes Scenario.stack (0, Tutorial.Interval) =
    [(Tutorial.AdapterOpts "redis" 6379, p)] ∧
  js_keys (arg p) = [] ∧
  ¬ is_presence_record (arg p).
Proof.
  split; [reflexivity|]. split; [reflexivity|]. split; [reflexivity|].
  apply string_is_no_presence_record.
Qed.

(** C4, amended. Each run of the timer callback of a process logs the one
    string "I am the host: <privateIp>. I am healty." and emits it as the
    event 'okok' with [io.emit], the call that delivers events to clients:
    the packet is written once to every socket connected to the process, to
    no other, and the same packet is what the Redis adapter is handed, with
    the host and port it was made with, for the other processes; the run
    itself changes no other process, what reaches them is up to Redis. The
    payload is that string, with no field of its own: the address of the
    host and a fixed phrase are all it holds. *)
Theorem interval_emits_okok_string (cl : Tutorial.cluster) (i : nat) (p : Tutorial.process) :
  cl !! i = Some p →
  let cl' := Tutorial.step cl (i, Tutorial.Interval) in
  let pk := Packet "okok" (JStr (Tutorial.log0 (Tutorial.ip p))) in
  (∃ p', cl' !! i = Some p' ∧
     SocketIO.console (Tutorial.io p') =
       SocketIO.console (Tutorial.io p) ++ [[JStr (Tutorial.log0 (Tutorial.ip p))]] ∧
     SocketIO.connected (Tutorial.io p') = SocketIO.connected (Tutorial.io p) ∧
     SocketIO.outbox (Tutorial.io p') =
       SocketIO.outbox (Tutorial.io p) ++ SocketIO.broadcast pk (SocketIO.connected (Tutorial.io p))) ∧
  (∀ d, Tutorial.received_at i d cl' =
        Tutorial.received_at i d cl ++
        match SocketIO.connected (Tutorial.io p) !! d with Some _ => [pk] | None => [] end) ∧
  (∀ j, j ≠ i → cl' !! j = cl !! j) ∧
  Tutorial.publishes cl (i, Tutorial.Interval) = [(Tutorial.adapter p, pk)] ∧
  js_keys (arg pk) = [] ∧
  ¬ is_presence_record (arg pk).
Proof.
  intros Hp cl' pk. split; [|split; [|split; [|split; [|split]]]].
  - subst cl'. rewrite interval_lookup, decide_True, Hp by done. simpl.
    eexists. by repeat split.
  - intros d. unfold Tutorial.received_at. subst cl'.
    rewrite interval_lookup, decide_True, Hp by done. simpl.
    rewrite received_app. f_equal. apply received_broadcast.
  - intros j Hj. subst cl'. by rewrite interval_lookup, decide_False.
  - unfold Tutorial.publishes. by rewrite Hp.
  - done.
  - apply string_is_no_presence_record.
Qed.

(** The timer of the first replica of the two-replica stack: client X is
    sent the string of its replica. *)
Lemma interval_emits_okok_string_witness :
  Tutorial.received_at 0 "X" (Tutorial.step Scenario.stack (0, Tutorial.Interval)) =
  Tutorial.received_at 0 "X" Scenario.stack ++
  [Packet "okok" (JStr (Tutorial.log0 "10.0.2.10"))].
Proof.
  pose proof (interval_emits_okok_string Scenario.stack 0
    (Tutorial.with_io (λ n, Tutorial.on_connection "X" (SocketIO.accept "X" (Some "io=1a2b") n))
       Scenario.server1) eq_refl) as H.
  exact (proj1 (proj2 H) "X").
Defined.

(** ** The packets exchanged *)



Lemma broadcast_packets p (socks : gmap string SocketIO.socket) :
  Forall (λ rp, rp.2 = p) (SocketIO.broadcast p socks).
Proof.
  unfold SocketIO.broadcast. apply Forall_fmap, Forall_forall. by intros [k s] _.
Qed.



(** ** The configuration a process reads *)

(** C6, as the claim states it, fails: with all six keys of the claim set
    in the environment, and REDIS_HOST not, the process starts exactly as it
    does with an empty environment: Redis at localhost:6379, listening on
    5000, a timer of 35000 ms for the draw 1/2. *)
Lemma claimed_keys_are_ignored :
  let env' : gmap string string :=
    list_to_map [("BACKPLANE_HOST", "redis.internal"); ("BACKPLANE_PORT", "7000");
                 ("NODE_LISTEN_PORT", "8080"); ("PRESENCE_INTERVAL_MS", "1000");
                 ("OUTBOUND_QUEUE_LIMIT", "10"); ("RECONNECT_BACKOFF_MAX_MS", "500")] in
  Tutorial.boot env' Scenario.ifaces1 (1 # 2) = Tutorial.boot ∅ Scenario.ifaces1 (1 # 2) ∧
  Tutorial.boot env' Scenario.ifaces1 (1 # 2) =
    Some (Tutorial.Process "10.0.2.10" (Tutorial.AdapterOpts "localhost" 6379) 5000
            35000 35000 SocketIO.init).
Proof. split; reflexivity. Qed.

(** C6, amended. The one environment variable the program reads is
    REDIS_HOST, the host of the Redis adapter, with 'localhost' in its place
    when it is unset or empty. Two environments that agree on REDIS_HOST
    start the same process, so no other key is recognized. The Redis port is
    the constant 6379 and the listen port the constant 5000, in the tutorial
    server and in the e2esimple server; the timer interval comes from the
    random draw alone. *)
Theorem only_redis_host_is_read :
  (∀ env env' ifaces u,
     env !! "REDIS_HOST" = env' !! "REDIS_HOST" →
     Tutorial.boot env ifaces u = Tutorial.boot env' ifaces u) ∧
  (∀ env ifaces u k v, k ≠ "REDIS_HOST" →
     Tutorial.boot (<[k := v]> env) ifaces u = Tutorial.boot env ifaces u) ∧
  (∀ env ifaces u p, Tutorial.boot env ifaces u = Some p →
     Tutorial.host (Tutorial.adapter p) = Tutorial.redisHost env ∧
     Tutorial.port (Tutorial.adapter p) = 6379%Z ∧
     Tutorial.listen p = 5000%Z ∧
     Tutorial.delay p = Tutorial.intervalOffset u) ∧
  (∀ (env : gmap string string) h, h ≠ "" →
     Tutorial.redisHost (<["REDIS_HOST" := h]> env) = h) ∧
  (∀ env : gmap string string,
     env !! "REDIS_HOST" = None ∨ env !! "REDIS_HOST" = Some "" →
     Tutorial.redisHost env = "localhost") ∧
  E2E.socketPort = 5000%Z ∧
  Tutorial.redisHost Stack.process_env = "redis".
Proof.
  assert (Hagree : ∀ env env' ifaces u,
     env !! "REDIS_HOST" = env' !! "REDIS_HOST" →
     Tutorial.boot env ifaces u = Tutorial.boot env' ifaces u).
  { intros env env' ifaces u H. unfold Tutorial.boot, Tutorial.redisAdapter_opts,
      Tutorial.redisHost. by rewrite H. }
  split; [done|]. split; [|split; [|split; [|split]]].
  - intros env ifaces u k v Hk. apply Hagree. by rewrite lookup_insert_ne.
  - intros env ifaces u p. unfold Tutorial.boot.
    destruct (Tutorial.privateIp ifaces); [|done]. simpl. by intros [= <-].
  - intros env h Hh. unfold Tutorial.redisHost. rewrite lookup_insert_eq.
    by rewrite decide_False.
  - intros env [H|H]; unfold Tutorial.redisHost; by rewrite H.
  - split; reflexivity.
Qed.

(** The environment of the compose file, with and without a key of the
    claim added: the same process starts. *)
Lemma only_redis_host_is_read_witness :
  Tutorial.boot (<["BACKPLANE_HOST" := "redis.internal"]> Stack.process_env)
    Scenario.ifaces1 (1 # 2) =
  Tutorial.boot Stack.process_env Scenario.ifaces1 (1 # 2).
Proof.
  apply (proj1 only_redis_host_is_read). reflexivity.
Defined.

(** ** The sticky cookie of the router and the token of a connection *)

Lemma token_console_log d args n : token d (SocketIO.console_log args n) = token d n.
Proof. done. Qed.

Lemma token_io_emit d e a n : token d (SocketIO.io_emit e a n) = token d n.
Proof. done. Qed.

Lemma token_client_on d c e n : token d (SocketIO.client_on c e n) = token d n.
Proof.
  unfold token. simpl. rewrite lookup_alter.
  destruct (decide (c = d)) as [->|]; [|done].
  by destruct (SocketIO.connected n !! d).
Qed.

Lemma token_accept d c tok n :
  token d (SocketIO.accept c tok n) = if decide (c = d) then Some tok else token d n.
Proof.
  unfold token. simpl. rewrite lookup_insert.
  by destruct (decide (c = d)).
Qed.

Lemma token_disconnect d c n :
  token d (SocketIO.disconnect c n) = if decide (c = d) then None else token d n.
Proof.
  unfold token. simpl. rewrite lookup_delete.
  by destruct (decide (c = d)).
Qed.

Lemma token_dispatch_log d c e a line n :
  token d (SocketIO.dispatch c e a (λ c a, SocketIO.console_log (line c a)) n) = token d n.
Proof. by rewrite dispatch_log. Qed.

Lemma cookie_options_eq :
  Stack.cookie_options =
    [("", "true"); ("name", "io"); ("httponly", "true"); ("secure", "true");
     ("samesite", "lax")].
Proof. reflexivity. Qed.

(** C7, as the claim states it, fails: the labels of the compose file set
    five options on the sticky cookie of the router: the cookie itself, its
    name and the HTTP-only, secure and same-site flags. None of them is a
    time to live. *)
Lemma sticky_cookie_has_no_ttl :
  Stack.cookie_options =
    [("", "true"); ("name", "io"); ("httponly", "true"); ("secure", "true");
     ("samesite", "lax")] ∧
  Stack.cookie_option "maxage" = None ∧
  Stack.cookie_option "ttl" = None.
Proof. split; [|split]; reflexivity. Qed.

(** C7, amended. The sticky cookie is set up in the router alone, by the
    labels of the compose file: a cookie named 'io' with the HTTP-only and
    secure flags and same-site 'lax', and nothing else (no time to live). The
    servers take the token a connection presents as it is: a socket holds the
    token of its handshake from the step that connects it to the step that
    disconnects it, and no listener, message or timer changes the token of
    any socket. *)
Theorem token_is_left_to_the_router :
  (∀ o, is_Some (Stack.cookie_option o) ↔
        o ∈ [""; "name"; "httponly"; "secure"; "samesite"]) ∧
  Stack.cookie_option "" = Some "true" ∧
  Stack.cookie_option "name" = Some "io" ∧
  Stack.cookie_option "httponly" = Some "true" ∧
  Stack.cookie_option "secure" = Some "true" ∧
  Stack.cookie_option "samesite" = Some "lax" ∧
  (∀ n x d,
     token d (E2E.step n x) =
     match x with
     | E2E.Connect c tok => if decide (c = d) then Some tok else token d n
     | E2E.Message _ _ _ => token d n
     | E2E.Disconnect c => if decide (c = d) then None else token d n
     end) ∧
  (∀ (cl : Tutorial.cluster) i x j d,
     token_at j d (Tutorial.step cl (i, x)) =
     if decide (i = j) then
       p ← cl !! j;
       match x with
       | Tutorial.Connect c tok => if decide (c = d) then Some tok else token d (Tutorial.io p)
       | Tutorial.Message _ _ _ => token d (Tutorial.io p)
       | Tutorial.Disconnect c => if decide (c = d) then None else token d (Tutorial.io p)
       | Tutorial.Interval => token d (Tutorial.io p)
       | Tutorial.Remote _ => token d (Tutorial.io p)
       end
     else token_at j d cl).
Proof.
  split.
  { intros o. unfold Stack.cookie_option. split.
    - intros [v Hv]. apply fmap_Some in Hv as [[o' v'] [Hf _]].
      apply find_some in Hf as [Hin Ho]. simpl in Ho.
      apply String.eqb_eq in Ho as ->.
      rewrite cookie_options_eq in Hin. apply list_elem_of_In in Hin.
      repeat (apply elem_of_cons in Hin as [Heq|Hin];
              [injection Heq as -> _; by repeat constructor|]).
      by apply elem_of_nil in Hin.
    - intros Ho. repeat (apply elem_of_cons in Ho as [->|Ho]; [by eexists|]).
      by apply elem_of_nil in Ho. }
  do 5 (split; [reflexivity|]).
  split.
  { intros n [c tok|c e a|c] d; simpl.
    - unfold E2E.on_connection.
      by rewrite token_io_emit, token_client_on, token_console_log, token_accept.
    - apply token_dispatch_log.
    - apply token_disconnect. }
  intros cl i x j d. unfold token_at.
  destruct x as [c tok|c e a|c| |pk]; unfold Tutorial.step.
  - rewrite list_lookup_alter. destruct (decide (i = j)) as [->|]; [|done].
    destruct (cl !! j) as [p|]; [|done]. simpl. unfold Tutorial.on_connection.
    by rewrite token_client_on, token_console_log, token_accept.
  - rewrite list_lookup_alter. destruct (decide (i = j)) as [->|]; [|done].
    destruct (cl !! j) as [p|]; [|done]. simpl. apply token_dispatch_log.
  - rewrite list_lookup_alter. destruct (decide (i = j)) as [->|]; [|done].
    destruct (cl !! j) as [p|]; [|done]. simpl. apply token_disconnect.
  - rewrite list_lookup_alter. destruct (decide (i = j)) as [->|]; [|done].
    by destruct (cl !! j) as [p|].
  - rewrite list_lookup_alter. destruct (decide (i = j)) as [->|]; [|done].
    by destruct (cl !! j) as [p|].
Qed.

(** ** The timer interval *)


(** The rounding of a numerator does not cross a multiple of [2^e]: the
    integers are binary64 numbers. *)
Lemma round53_keeps_floor (n e : Z) :
  (0 ≤ n < 2 ^ 57)%Z → (0 ≤ e)%Z → (Z.log2 n - 52 ≤ e)%Z →
  (n / 2 ^ e * 2 ^ e ≤ Tutorial.round53 n ≤ (n / 2 ^ e + 1) * 2 ^ e)%Z.
Proof.
  intros [Hlo Hhi] He0 He. unfold Tutorial.round53.
  assert (HE : (0 < 2 ^ e)%Z) by (apply Z.pow_pos_nonneg; lia).
  pose proof (Z.mul_div_le n (2 ^ e) HE) as Hk1.
  pose proof (Z.mul_succ_div_gt n (2 ^ e) HE) as Hk2.
  destruct (Z.leb_spec (Z.log2 n - 52) 0) as [|Hs]; [lia|].
  assert (Hpos : (0 < n)%Z).
  { destruct (Z.eq_dec n 0%Z) as [->|]; [|lia]. simpl in Hs. lia. }
  assert (Hl : (Z.log2 n < 57)%Z) by (by apply Z.log2_lt_pow2).
  assert (Hsplit : (2 ^ e = 2 ^ (Z.log2 n - 52) * 2 ^ (e - (Z.log2 n - 52)))%Z).
  { rewrite <- Z.pow_add_r by lia. f_equal. lia. }
  assert (HT : (0 < 2 ^ (e - (Z.log2 n - 52)))%Z) by (apply Z.pow_pos_nonneg; lia).
  remember (2 ^ (e - (Z.log2 n - 52)))%Z as T eqn:HeqT. clear HeqT.
  remember (2 ^ e)%Z as E eqn:HeqE. clear HeqE.
  remember (n / E)%Z as k eqn:Heqk. clear Heqk.
  assert (Hcases : (Z.log2 n - 52 = 1 ∨ Z.log2 n - 52 = 2 ∨
                    Z.log2 n - 52 = 3 ∨ Z.log2 n - 52 = 4)%Z) by lia.
  remember (Z.log2 n - 52)%Z as s eqn:Heqs. clear Heqs Hl Hs.
  destruct Hcases as [-> | [-> | [-> | ->]]];
    match type of Hsplit with
    | context [(2 ^ ?j)%Z] =>
        let v := eval vm_compute in (2 ^ j)%Z in change (2 ^ j)%Z with v in *
    end;
    match goal with
    | |- context [(2 ^ ?j)%Z] =>
        let v := eval vm_compute in (2 ^ j)%Z in change (2 ^ j)%Z with v
    end;
    subst E;
    match goal with
    | |- context [(?a <? ?b)%Z] => destruct (Z.ltb_spec a b)
    end;
    match goal with
    | |- context [(?a =? ?b)%Z] => destruct (Z.eqb_spec a b)
    end; simpl; try destruct (Z.odd _); Z.div_mod_to_equations; nia.
Qed.


(** The shift of the rounding is at most the exponent of the draw. *)
Lemma draw_shift (m e : Z) :
  (0 ≤ m < 2 ^ 53)%Z → (0 ≤ e)%Z → (m < 2 ^ e)%Z → (Z.log2 (m * 10) - 52 ≤ e)%Z.
Proof.
  intros Hm He Hme.
  destruct (Z.le_gt_cases (m * 10) 0) as [Hz|Hpos].
  { assert (Z.log2 (m * 10) = 0%Z) by (by apply Z.log2_nonpos). lia. }
  assert (Hlt : (Z.log2 (m * 10) < e + 4)%Z).
  { apply Z.log2_lt_pow2; [done|]. rewrite Z.pow_add_r by lia.
    change (2 ^ 4)%Z with 16%Z. lia. }
  assert (H57 : (Z.log2 (m * 10) < 57)%Z).
  { apply Z.log2_lt_pow2; [done|].
    assert ((2 ^ 53 = 9007199254740992)%Z) by reflexivity.
    assert ((2 ^ 57 = 144115188075855872)%Z) by reflexivity. lia. }
  destruct (Z.le_gt_cases 4 e); [lia|].
  assert (Hsmall : (2 ^ e ≤ 2 ^ 3)%Z) by (apply Z.pow_le_mono_r; lia).
  change (2 ^ 3)%Z with 8%Z in Hsmall.
  assert (Z.log2 (m * 10) < 7)%Z by (apply Z.log2_lt_pow2; [done|]; change (2 ^ 7)%Z with 128%Z; lia).
  lia.
Qed.












(** * Further properties of the code *)

(** ** The address of the host *)

Lemma find_first {A} (f : A → bool) (l : list A) :
  match List.find f l with
  | Some x => ∃ before after, l = before ++ x :: after ∧ f x = true ∧
                Forall (λ y, f y = false) before
  | None => Forall (λ y, f y = false) l
  end.
Proof.
  induction l as [|y l IH]; simpl; [constructor|].
  destruct (f y) eqn:Hy.
  - exists [], l. by repeat split.
  - destruct (List.find f l) as [x|].
    + destruct IH as (before & after & -> & Hx & Hb).
      exists (y :: before), after. split; [done|]. split; [done|]. by constructor.
    + by constructor.
Qed.

(** X1. [privateIp] is the address of the first interface, in the order
    of [os.networkInterfaces()], that is IPv4 and not internal: every
    interface before it is internal or of another family. The script starts,
    whatever the environment and the draw, exactly when the host has such an
    interface; on a host with none (loopback only, IPv6 only, no interface)
    reading [.address] of [undefined] throws before the server listens. *)
Theorem privateIp_first_external_ipv4 (ifaces : list (string * list Tutorial.iface)) :
  match Tutorial.privateIp ifaces with
  | Some a =>
      ∃ before v after,
        concat ifaces.*2 = before ++ v :: after ∧
        Tutorial.address v = a ∧
        Tutorial.family v = "IPv4" ∧ Tutorial.internal v = false ∧
        Forall (λ w, Tutorial.family w ≠ "IPv4" ∨ Tutorial.internal w = true) before
  | None =>
      Forall (λ w, Tutorial.family w ≠ "IPv4" ∨ Tutorial.internal w = true) (concat ifaces.*2)
  end ∧
  (∀ env u,
     is_Some (Tutorial.boot env ifaces u) ↔
     ∃ v, v ∈ concat ifaces.*2 ∧ Tutorial.family v = "IPv4" ∧ Tutorial.internal v = false) ∧
  (∀ env u p, Tutorial.boot env ifaces u = Some p →
     Tutorial.privateIp ifaces = Some (Tutorial.ip p)).
Proof.
  assert (Hno : ∀ w : Tutorial.iface,
    (String.eqb (Tutorial.family w) "IPv4" && negb (Tutorial.internal w)) = false →
    Tutorial.family w ≠ "IPv4" ∨ Tutorial.internal w = true).
  { intros w Hw. apply andb_false_iff in Hw as [Hw|Hw].
    - left. by apply String.eqb_neq.
    - right. by destruct (Tutorial.internal w). }
  assert (Hyes : ∀ w : Tutorial.iface,
    (String.eqb (Tutorial.family w) "IPv4" && negb (Tutorial.internal w)) = true →
    Tutorial.family w = "IPv4" ∧ Tutorial.internal w = false).
  { intros w Hw. apply andb_true_iff in Hw as [Hf Hi]. split.
    - by apply String.eqb_eq.
    - by destruct (Tutorial.internal w). }
  unfold Tutorial.boot, Tutorial.privateIp.
  pose proof (find_first
    (λ val, String.eqb (Tutorial.family val) "IPv4" && negb (Tutorial.internal val))
    (concat ifaces.*2)) as Hfind.
  destruct (List.find _ (concat ifaces.*2)) as [v|]; simpl.
  - destruct Hfind as (before & after & Heq & Hv & Hb).
    destruct (Hyes v Hv) as [Hf Hi]. split; [|split].
    + exists before, v, after. repeat split; [done..|].
      eapply Forall_impl; [exact Hb|]. exact Hno.
    + intros env u. split; [|by eexists]. intros _. exists v.
      split; [|done]. rewrite Heq. apply elem_of_app. right. left.
    + by intros env u p [= <-].
  - split; [|split].
    + eapply Forall_impl; [exact Hfind|]. exact Hno.
    + intros env u. split; [by intros [? ?]|]. intros (v & Hin & Hf & Hi).
      rewrite Forall_forall in Hfind. specialize (Hfind v Hin).
      simpl in Hfind. rewrite Hf, Hi in Hfind. done.
    + by intros env u p.
Qed.

(** ** The health string *)

Lemma string_length_app (s t : string) :
  String.length (s ++ t)%string = String.length s + String.length t.
Proof.
  induction s as [|a s IH]; [done|].
  change (S (String.length (s ++ t)%string) = S (String.length s) + String.length t).
  by rewrite IH.
Qed.

Lemma string_app_inj_r (s1 s2 t : string) :
  (s1 ++ t)%string = (s2 ++ t)%string → s1 = s2.
Proof.
  revert s2. induction s1 as [|a s1 IH]; intros [|b s2] H.
  - done.
  - apply (f_equal String.length) in H.
    rewrite !string_length_app in H. simpl in H. lia.
  - apply (f_equal String.length) in H.
    rewrite !string_length_app in H. simpl in H. lia.
  - change (String a (s1 ++ t)%string = String b (s2 ++ t)%string) in H.
    injection H as -> H. f_equal. by apply IH.
Qed.

(** X2. The health string names its host: two processes emit the same
    string only if they have the same address, and the string is the address
    with 29 fixed characters around it. *)
Theorem log0_names_the_host :
  (∀ a b, Tutorial.log0 a = Tutorial.log0 b → a = b) ∧
  (∀ a, String.length (Tutorial.log0 a) = 29 + String.length a) ∧
  (∀ a, String.prefix "I am the host: " (Tutorial.log0 a) = true) ∧
  (∀ a, String.substring 15 (String.length a) (Tutorial.log0 a) = a).
Proof.
  split; [|split; [|split]].
  - intros a b H. unfold Tutorial.log0 in H.
    apply (inj (String.app "I am the host: ")) in H.
    by apply string_app_inj_r in H.
  - intros a. unfold Tutorial.log0. rewrite !string_length_app. simpl. lia.
  - intros a. by destruct a.
  - intros a. unfold Tutorial.log0.
    change (String.substring 0 (String.length a) (a ++ ". I am healty.")%string = a).
    induction a as [|c a IH]; [done|].
    change (String c (String.substring 0 (String.length a) (a ++ ". I am healty.")%string)
            = String c a).
    by rewrite IH.
Qed.

(** ** The intervals of two replicas *)



(** ** The offset in binary64 arithmetic and the exact offset *)

(** X4. For a draw that is a binary64 number [m / 2^e] of [[0, 1)], the
    offset computed in binary64 arithmetic is the exact offset
    floor(10 m / 2^e), or one more: one more exactly when the rounding of the
    product gives that next integer. When the product needs no rounding the
    two agree. The offset computed in binary64 arithmetic is the offset of
    the script at that draw. *)
Theorem randomOffset64_close (m e : Z) :
  (0 ≤ m < 2 ^ 53)%Z → (53 ≤ e)%Z →
  let u := (m # Z.to_pos (2 ^ e))%Q in
  let r := Tutorial.exactOffset u in
  (0 <= u)%Q ∧ (u < 1)%Q ∧
  r = (m * 10 / 2 ^ e)%Z ∧
  (Tutorial.randomOffset64 m e = r ∨
   Tutorial.randomOffset64 m e = (r + 1)%Z ∧
   Tutorial.round53 (m * 10) = ((r + 1) * 2 ^ e)%Z) ∧
  ((m * 10 < 2 ^ 53)%Z → Tutorial.randomOffset64 m e = r) ∧
  Tutorial.randomOffset u = Tutorial.randomOffset64 m e.
Proof.
  intros Hm He u r.
  assert (HE : (0 < 2 ^ e)%Z) by (apply Z.pow_pos_nonneg; lia).
  assert (HE53 : (2 ^ 53 ≤ 2 ^ e)%Z) by (apply Z.pow_le_mono_r; lia).
  assert (Hp : Z.pos (Z.to_pos (2 ^ e)) = (2 ^ e)%Z) by (by apply Z2Pos.id).
  assert (Hr : r = (m * 10 / 2 ^ e)%Z).
  { subst r u. unfold Tutorial.exactOffset, Qfloor. simpl.
    by rewrite Pos.mul_1_r, Hp. }
  assert (H53 : (2 ^ 53 = 9007199254740992)%Z) by reflexivity.
  assert (H57 : (2 ^ 57 = 144115188075855872)%Z) by reflexivity.
  assert (Hn : (0 ≤ m * 10 < 2 ^ 57)%Z) by lia.
  assert (Hs : (Z.log2 (m * 10) - 52 ≤ e)%Z) by (apply draw_shift; lia).
  pose proof (round53_keeps_floor (m * 10) e Hn ltac:(lia) Hs) as [Hlo Hhi].
  rewrite <- Hr in Hlo, Hhi.
  split; [|split; [|split; [|split; [|split]]]].
  - subst u. unfold Qle. simpl. lia.
  - subst u. unfold Qlt. simpl. rewrite Hp. lia.
  - exact Hr.
  - unfold Tutorial.randomOffset64.
    destruct (Z.eq_dec (Tutorial.round53 (m * 10)) ((r + 1) * 2 ^ e)%Z) as [Heq|Hne].
    + right. split; [|exact Heq]. rewrite Heq. by apply Z.div_mul, Z.neq_sym, Z.lt_neq.
    + left. symmetry. apply (Z.div_unique _ _ r (Tutorial.round53 (m * 10) - r * 2 ^ e)); lia.
  - intros Hsmall. unfold Tutorial.randomOffset64, Tutorial.round53.
    assert (Hlog : (Z.log2 (m * 10) - 52 ≤ 0)%Z).
    { destruct (Z.eq_dec (m * 10)%Z 0%Z) as [->|]; [simpl; lia|].
      assert (Z.log2 (m * 10) < 53)%Z by (apply Z.log2_lt_pow2; lia). lia. }
    destruct (Z.leb_spec (Z.log2 (m * 10) - 52) 0); [|lia]. by rewrite Hr.
  - subst u. unfold Tutorial.randomOffset. cbn [Qnum Qden].
    by rewrite Hp, Z.log2_pow2 by lia.
Qed.

(** The draw 5404319552844595 / 2^53, just under 0.6: the exact offset is
    5, the binary64 product rounds to 6. *)
Lemma randomOffset64_close_witness :
  Tutorial.exactOffset (5404319552844595 # Z.to_pos (2 ^ 53)) = 5%Z ∧
  Tutorial.randomOffset64 5404319552844595 53 = 6%Z.
Proof.
  pose proof (randomOffset64_close 5404319552844595 53
    ltac:(split; [discriminate|reflexivity]) ltac:(discriminate)) as H.
  split; [reflexivity|].
  destruct (proj1 (proj2 (proj2 (proj2 H)))) as [Heq|[Heq _]].
  - discriminate Heq.
  - exact Heq.
Defined.

(** ** Runs of the e2esimple server *)

Lemma e2e_step_connected n x d :
  E2E.concerns d x = false →
  SocketIO.connected (E2E.step n x) !! d = SocketIO.connected n !! d.
Proof.
  destruct x as [c tok|c e a|c]; simpl; intros Hx.
  - apply bool_decide_eq_false in Hx.
    by rewrite lookup_alter_ne, lookup_insert_ne.
  - unfold E2E.on_testMsg. by rewrite dispatch_log.
  - apply bool_decide_eq_false in Hx. by rewrite lookup_delete_ne.
Qed.

Lemma e2e_step_received n x d :
  SocketIO.received d (SocketIO.outbox (E2E.step n x)) =
  SocketIO.received d (SocketIO.outbox n) ++
  if E2E.is_connect x then
    match SocketIO.connected (E2E.step n x) !! d with
    | Some _ => [E2E.broadcast_packet]
    | None => []
    end
  else [].
Proof.
  destruct x as [c tok|c e a|c]; simpl.
  - rewrite received_app. f_equal. apply received_broadcast.
  - unfold E2E.on_testMsg. rewrite dispatch_log. simpl. by rewrite app_nil_r.
  - symmetry. apply app_nil_r.
Qed.

(** X5. In a run of the e2esimple server, while nothing connects or
    disconnects the socket d, d stays as it is, and what it is sent is one
    broadcast packet for each connection the server accepts if d is
    connected, and nothing at all if d is not: messages and the
    disconnections of others add nothing, and a socket that is gone is sent
    nothing more. *)
Theorem e2e_deliveries_in_a_run (n : SocketIO.node) (d : string) (xs : list E2E.event) :
  Forall (λ x, E2E.concerns d x = false) xs →
  SocketIO.connected (foldl E2E.step n xs) !! d = SocketIO.connected n !! d ∧
  SocketIO.received d (SocketIO.outbox (foldl E2E.step n xs)) =
  SocketIO.received d (SocketIO.outbox n) ++
  replicate (match SocketIO.connected n !! d with
             | Some _ => length (filter (λ x, E2E.is_connect x) xs)
             | None => 0
             end) E2E.broadcast_packet.
Proof.
  revert n. induction xs as [|x xs IH]; intros n Hxs; simpl.
  - split; [done|]. destruct (SocketIO.connected n !! d); simpl; symmetry; apply app_nil_r.
  - apply Forall_cons in Hxs as [Hx Hxs].
    destruct (IH (E2E.step n x) Hxs) as [Hc Hr].
    pose proof (e2e_step_connected n x d Hx) as Hcx.
    rewrite Hc, Hr, Hcx, e2e_step_received, Hcx. split; [done|].
    rewrite <- app_assoc. f_equal. rewrite filter_cons.
    destruct (E2E.is_connect x), (SocketIO.connected n !! d); simpl; done.
Qed.

(** C is connected and A, B connect, A sends a message and leaves: C is
    sent two packets more. After C has left, a further connection gives it
    nothing. *)
Lemma e2e_deliveries_in_a_run_witness :
  let n := E2E.run [E2E.Connect "C" None] in
  let xs := [E2E.Connect "A" None; E2E.Connect "B" None;
             E2E.Message "A" "testMsg" (JStr "a message"); E2E.Disconnect "A"] in
  SocketIO.received "C" (SocketIO.outbox (foldl E2E.step n xs)) =
    replicate 3 E2E.broadcast_packet ∧
  SocketIO.received "C"
    (SocketIO.outbox (foldl E2E.step (SocketIO.disconnect "C" n) [E2E.Connect "A" None])) =
    [E2E.broadcast_packet].
Proof.
  split.
  - exact (proj2 (e2e_deliveries_in_a_run (E2E.run [E2E.Connect "C" None]) "C"
      [E2E.Connect "A" None; E2E.Connect "B" None;
       E2E.Message "A" "testMsg" (JStr "a message"); E2E.Disconnect "A"]
      ltac:(repeat constructor))).
  - exact (proj2 (e2e_deliveries_in_a_run
      (SocketIO.disconnect "C" (E2E.run [E2E.Connect "C" None])) "C"
      [E2E.Connect "A" None] ltac:(repeat constructor))).
Defined.

Lemma broadcast_length p (socks : gmap string SocketIO.socket) :
  length (SocketIO.broadcast p socks) = size socks.
Proof. unfold SocketIO.broadcast. by rewrite length_fmap, length_map_to_list. Qed.

Lemma e2e_connect_dom n c tok :
  dom (SocketIO.connected (E2E.step n (E2E.Connect c tok))) =
  {[c]} ∪ dom (SocketIO.connected n).
Proof. simpl. by rewrite dom_alter_L, dom_insert_L. Qed.

(** X6. When n clients with different ids connect to a fresh e2esimple
    server one after the other, every connection is announced to all that are
    connected by then: the k-th client (from 0) is sent n - k packets, all
    the same, and the server writes n (n + 1) / 2 packets in all. *)
Theorem connections_broadcast_quadratically (cs : list (string * option string)) :
  NoDup cs.*1 →
  let n := E2E.run (E2E.connects cs) in
  dom (SocketIO.connected n) = list_to_set cs.*1 ∧
  (∀ k c tok, cs !! k = Some (c, tok) →
     SocketIO.received c (SocketIO.outbox n) = replicate (length cs - k) E2E.broadcast_packet) ∧
  (∀ d, d ∉ cs.*1 → SocketIO.received d (SocketIO.outbox n) = []) ∧
  2 * length (SocketIO.outbox n) = length cs * (length cs + 1).
Proof.
  induction cs as [|[c tok] cs IH] using rev_ind; intros Hnd n.
  - subst n. simpl. split; [by rewrite dom_empty_L|]. split; [|done].
    intros k c tok Hk. by rewrite lookup_nil in Hk.
  - pose proof Hnd as Hnd'.
    rewrite fmap_app in Hnd. apply NoDup_app in Hnd as (Hnd & Hfresh & _).
    destruct (IH Hnd) as (Hdom & Hrecv & Hnone & Hlen). clear IH.
    assert (Hc : c ∉ cs.*1).
    { intros Hin. apply (Hfresh c Hin). simpl. left. }
    assert (Hn : n = E2E.step (E2E.run (E2E.connects cs)) (E2E.Connect c tok)).
    { subst n. unfold E2E.run, E2E.connects. by rewrite fmap_app, foldl_app. }
    clearbody n.
    remember (E2E.run (E2E.connects cs)) as n0 eqn:Hn0. clear Hn0.
    assert (Hdom' : dom (SocketIO.connected n) = list_to_set (cs ++ [(c, tok)]).*1).
    { rewrite Hn, e2e_connect_dom, Hdom, fmap_app, list_to_set_app_L. simpl.
      rewrite (right_id_L ∅ (∪)). apply (comm_L (∪)). }
    assert (Hin : ∀ d, is_Some (SocketIO.connected n !! d) ↔ d = c ∨ d ∈ cs.*1).
    { intros d. rewrite <- elem_of_dom, Hdom', fmap_app, list_to_set_app_L. simpl.
      rewrite elem_of_union, elem_of_list_to_set, elem_of_union, elem_of_singleton,
        elem_of_empty. tauto. }
    assert (Hstep : ∀ d, SocketIO.received d (SocketIO.outbox n) =
      SocketIO.received d (SocketIO.outbox n0) ++
      match SocketIO.connected n !! d with Some _ => [E2E.broadcast_packet] | None => [] end).
    { intros d. rewrite Hn. apply (e2e_step_received n0 (E2E.Connect c tok) d). }
    split; [exact Hdom'|]. split; [|split].
    + intros k c' tok' Hk. rewrite Hstep, length_app. simpl.
      destruct (proj2 (Hin c')) as [s Hs].
      { apply lookup_app_Some in Hk as [Hk|[_ Hk]].
        - right. apply list_elem_of_fmap. exists (c', tok'). split; [done|].
          by eapply list_elem_of_lookup_2.
        - left. apply list_lookup_singleton_Some in Hk as [_ [= <- _]]. done. }
      rewrite Hs. apply lookup_app_Some in Hk as [Hk|[Hge Hk]].
      * rewrite (Hrecv k c' tok' Hk).
        pose proof (lookup_lt_Some _ _ _ Hk) as Hlt.
        replace (length cs + 1 - k) with (S (length cs - k)) by lia.
        by rewrite replicate_S_end.
      * apply list_lookup_singleton_Some in Hk as [Hk [= <- <-]].
        rewrite (Hnone c Hc).
        replace (length cs + 1 - k) with 1 by lia. done.
    + intros d Hd. rewrite Hstep.
      rewrite fmap_app in Hd. apply not_elem_of_app in Hd as [Hd1 Hd2].
      rewrite (Hnone d Hd1).
      destruct (SocketIO.connected n !! d) as [s|] eqn:Hs; [|done].
      exfalso. destruct (proj1 (Hin d)) as [->|?]; [by eexists| |done].
      apply Hd2. simpl. left.
    + rewrite length_app. simpl.
      assert (Hout : length (SocketIO.outbox n) =
                     length (SocketIO.outbox n0) + size (SocketIO.connected n)).
      { rewrite Hn. simpl. by rewrite length_app, broadcast_length. }
      assert (Hsize : size (SocketIO.connected n) = length cs + 1).
      { rewrite <- size_dom, Hdom', size_list_to_set by done.
        by rewrite length_fmap, length_app. }
      rewrite Hout, Hsize. lia.
Qed.

(** Three clients: the first is sent three packets, the last one; six in
    all. *)
Lemma connections_broadcast_quadratically_witness :
  let n := E2E.run (E2E.connects [("A", None); ("B", Some "io=1a2b"); ("C", None)]) in
  SocketIO.received "A" (SocketIO.outbox n) = replicate 3 E2E.broadcast_packet ∧
  SocketIO.received "C" (SocketIO.outbox n) = replicate 1 E2E.broadcast_packet ∧
  2 * length (SocketIO.outbox n) = 3 * 4.
Proof.
  assert (Hnd : NoDup [("A", None); ("B", Some "io=1a2b"); ("C", @None string)].*1).
  { apply NoDup_ListNoDup. repeat constructor; simpl; intuition discriminate. }
  pose proof (connections_broadcast_quadratically
    [("A", None); ("B", Some "io=1a2b"); ("C", None)] Hnd) as (_ & Hrecv & _ & Hlen).
  split; [exact (Hrecv 0 "A" None eq_refl)|].
  split; [exact (Hrecv 2 "C" None eq_refl)|exact Hlen].
Defined.

(** ** client.js against server.js *)

Lemma e2e_session n c tok :
  foldl E2E.step n (EndToEnd.session c tok) =
  SocketIO.Node
    (SocketIO.connected (E2E.step n (E2E.Connect c tok)))
    (SocketIO.console n ++ EndToEnd.session_lines c)
    (SocketIO.outbox (E2E.step n (E2E.Connect c tok))).
Proof.
  unfold EndToEnd.session. simpl. unfold E2E.on_testMsg. rewrite dispatch_log.
  unfold SocketIO.listeners_for. simpl.
  rewrite lookup_alter_eq, lookup_insert_eq. simpl.
  by rewrite <- app_assoc.
Qed.

(** X7. When clients run client.js against the e2esimple server one after
    the other (ids may repeat), the console of the server holds two lines for
    each run, in the order of the runs: the connection, then the message
    'a message' with the id of its sender, logged once. The server sends
    nothing but broadcast packets: the message of a client comes back to no
    one. *)
Theorem sessions_are_logged_in_order (cs : list (string * option string)) :
  let n := E2E.run (EndToEnd.sessions cs) in
  SocketIO.console n = concat ((λ ct, EndToEnd.session_lines ct.1) <$> cs) ∧
  SocketIO.outbox n = SocketIO.outbox (E2E.run (E2E.connects cs)) ∧
  SocketIO.connected n = SocketIO.connected (E2E.run (E2E.connects cs)) ∧
  Forall (λ rp, rp.2 = E2E.broadcast_packet) (SocketIO.outbox n).
Proof.
  induction cs as [|[c tok] cs IH] using rev_ind.
  - by repeat split.
  - destruct IH as (Hcon & Hout & Hsock & Hall).
    assert (Hs : E2E.run (EndToEnd.sessions (cs ++ [(c, tok)])) =
                 foldl E2E.step (E2E.run (EndToEnd.sessions cs)) (EndToEnd.session c tok)).
    { unfold E2E.run, EndToEnd.sessions.
      by rewrite fmap_app, concat_app, foldl_app. }
    assert (Hc : E2E.run (E2E.connects (cs ++ [(c, tok)])) =
                 E2E.step (E2E.run (E2E.connects cs)) (E2E.Connect c tok)).
    { unfold E2E.run, E2E.connects. by rewrite fmap_app, foldl_app. }
    cbv zeta. rewrite Hs, Hc, e2e_session.
    remember (E2E.run (EndToEnd.sessions cs)) as n eqn:Hn. clear Hn Hs.
    remember (E2E.run (E2E.connects cs)) as n0 eqn:Hn0. clear Hn0 Hc.
    simpl in *. rewrite Hcon, Hout, Hsock.
    split; [by rewrite fmap_app, concat_app|].
    split; [done|]. split; [done|].
    apply Forall_app. split; [by rewrite <- Hout|]. apply broadcast_packets.
Qed.

(** ** Runs of the tutorial stack *)

Lemma tutorial_step_ip (cl : Tutorial.cluster) ix :
  Tutorial.ip <$> Tutorial.step cl ix = Tutorial.ip <$> cl.
Proof.
  assert (Hquiet : ∀ (g : Tutorial.process → Tutorial.process) i,
    (∀ p, Tutorial.ip (g p) = Tutorial.ip p) →
    Tutorial.ip <$> alter g i cl = Tutorial.ip <$> cl).
  { intros g i Hg. apply list_eq. intros k.
    rewrite !list_lookup_fmap, list_lookup_alter.
    destruct (decide (i = k)) as [->|]; [|done].
    destruct (cl !! k); simpl; [|done]. by rewrite Hg. }
  destruct ix as [i [c tok|c e a|c| |pk]]; unfold Tutorial.step; by apply Hquiet.
Qed.

Lemma written_at_ip (cl cl' : Tutorial.cluster) j xs :
  Tutorial.ip <$> cl = Tutorial.ip <$> cl' →
  Tutorial.written_at j cl xs = Tutorial.written_at j cl' xs.
Proof.
  intros Hip. unfold Tutorial.written_at.
  apply list_omap_ext, Forall2_same_length_lookup. split; [done|].
  intros k [i x] [i' x'] Hk Hk'. rewrite Hk in Hk'. injection Hk' as <- <-.
  destruct x; try done.
  destruct (decide (i = j)); [|done].
  assert (Hj : Tutorial.ip <$> cl !! j = Tutorial.ip <$> cl' !! j).
  { by rewrite <- !list_lookup_fmap, Hip. }
  unfold Tutorial.interval_packet.
  destruct (cl !! j), (cl' !! j); simpl in *; congruence.
Qed.

Lemma tutorial_step_delivery (cl : Tutorial.cluster) ix j q d :
  cl !! j = Some q →
  Tutorial.concerns j d ix = false →
  ∃ q', Tutorial.step cl ix !! j = Some q' ∧
    SocketIO.connected (Tutorial.io q') !! d = SocketIO.connected (Tutorial.io q) !! d ∧
    SocketIO.received d (SocketIO.outbox (Tutorial.io q')) =
    SocketIO.received d (SocketIO.outbox (Tutorial.io q)) ++
    match SocketIO.connected (Tutorial.io q) !! d with
    | Some _ => Tutorial.written_at j cl [ix]
    | None => []
    end.
Proof.
  intros Hq Hix.
  assert (Hnil : ∀ l : list packet,
    l = l ++ match SocketIO.connected (Tutorial.io q) !! d with
             | Some _ => [] | None => [] end).
  { intros l. destruct (SocketIO.connected (Tutorial.io q) !! d); symmetry; apply app_nil_r. }
  assert (Hquiet : ∀ (f : SocketIO.node → SocketIO.node) i,
    (i = j → SocketIO.connected (f (Tutorial.io q)) !! d =
             SocketIO.connected (Tutorial.io q) !! d) →
    (∀ n, SocketIO.outbox (f n) = SocketIO.outbox n) →
    ∃ q', alter (Tutorial.with_io f) i cl !! j = Some q' ∧
      SocketIO.connected (Tutorial.io q') !! d = SocketIO.connected (Tutorial.io q) !! d ∧
      SocketIO.received d (SocketIO.outbox (Tutorial.io q')) =
      SocketIO.received d (SocketIO.outbox (Tutorial.io q))).
  { intros f i Hc Ho. rewrite list_lookup_alter.
    destruct (decide (i = j)) as [->|].
    - rewrite Hq. eexists. split; [done|]. simpl. split; [by apply Hc|]. by rewrite Ho.
    - exists q. by repeat split. }
  destruct ix as [i [c tok|c e a|c| |pk]]; simpl in Hix.
  - destruct (Hquiet (λ n, Tutorial.on_connection c (SocketIO.accept c tok n)) i)
      as (q' & Hq' & Hc' & Hr'); [|done|].
    { intros ->. apply bool_decide_eq_false in Hix. simpl.
      rewrite lookup_alter_ne, lookup_insert_ne; [done|naive_solver..]. }
    exists q'. split; [exact Hq'|]. split; [exact Hc'|]. rewrite Hr'. apply Hnil.
  - destruct (Hquiet (SocketIO.dispatch c e a Tutorial.on_test000) i)
      as (q' & Hq' & Hc' & Hr').
    { intros _. unfold Tutorial.on_test000. by rewrite dispatch_log. }
    { intros n. unfold Tutorial.on_test000. by rewrite dispatch_log. }
    exists q'. split; [exact Hq'|]. split; [exact Hc'|]. rewrite Hr'. apply Hnil.
  - destruct (Hquiet (SocketIO.disconnect c) i) as (q' & Hq' & Hc' & Hr'); [|done|].
    { intros ->. apply bool_decide_eq_false in Hix. simpl.
      rewrite lookup_delete_ne; [done|naive_solver]. }
    exists q'. split; [exact Hq'|]. split; [exact Hc'|]. rewrite Hr'. apply Hnil.
  - rewrite interval_lookup, Hq. unfold Tutorial.written_at. simpl.
    destruct (decide (i = j)) as [->|].
    + rewrite Hq. simpl. eexists. split; [done|]. split; [done|].
      change (SocketIO.outbox (Tutorial.io (Tutorial.tick q))) with
        (SocketIO.outbox (Tutorial.io q) ++
         SocketIO.broadcast (Tutorial.interval_packet q) (SocketIO.connected (Tutorial.io q))).
      by rewrite received_app, received_broadcast.
    + exists q. split; [done|]. split; [done|]. apply Hnil.
  - unfold Tutorial.step, Tutorial.written_at. rewrite list_lookup_alter. simpl.
    destruct (decide (i = j)) as [->|]; rewrite Hq.
    + simpl. eexists. split; [done|]. split; [done|].
      change (SocketIO.outbox (Tutorial.io (Tutorial.with_io (SocketIO.deliver pk) q))) with
        (SocketIO.outbox (Tutorial.io q) ++
         SocketIO.broadcast pk (SocketIO.connected (Tutorial.io q))).
      by rewrite received_app, received_broadcast.
    + exists q. split; [done|]. split; [done|]. apply Hnil.
Qed.

Lemma written_at_cons (cl : Tutorial.cluster) j ix xs :
  Tutorial.written_at j cl (ix :: xs) =
  Tutorial.written_at j cl [ix] ++ Tutorial.written_at j cl xs.
Proof. apply (omap_app _ [ix] xs). Qed.

Lemma intervals_at_cons j ix xs :
  Tutorial.intervals_at j (ix :: xs) =
  Tutorial.intervals_at j [ix] + Tutorial.intervals_at j xs.
Proof.
  unfold Tutorial.intervals_at.
  by rewrite <- length_app, <- filter_app.
Qed.

Lemma written_at_own (cl : Tutorial.cluster) j q xs :
  cl !! j = Some q →
  Forall (λ ix, ∀ pk, ix ≠ (j, Tutorial.Remote pk)) xs →
  Tutorial.written_at j cl xs =
  replicate (Tutorial.intervals_at j xs) (Tutorial.interval_packet q).
Proof.
  intros Hq. induction 1 as [|[i x] xs Hx _ IH]; [done|].
  rewrite written_at_cons, intervals_at_cons, replicate_add, IH. f_equal.
  unfold Tutorial.written_at, Tutorial.intervals_at.
  destruct x as [c tok|c e a|c| |pk]; try done.
  - rewrite filter_cons. simpl. rewrite Hq.
    destruct (decide (i = j)) as [->|Hne].
    + by rewrite decide_True by (by apply bool_decide_pack).
    + by rewrite decide_False by (by intros ?%bool_decide_unpack).
  - simpl. destruct (decide (i = j)) as [->|]; [|done]. by destruct (Hx pk).
Qed.

(** X8. In a run of the tutorial stack, while nothing connects or
    disconnects the socket d of a replica, d stays as it is and, if it is
    connected, is sent, in order, the health string of each run of the timer
    callback of its own replica and each packet the adapter of the replica
    receives, and nothing else; a socket that is not connected is sent
    nothing. When the adapter of the replica receives nothing, what the
    replica writes is its own health string, once for each run of its
    callback. The addresses of the replicas do not change in the run. *)
Theorem tutorial_deliveries_in_a_run
    (cl : Tutorial.cluster) (j : nat) (q : Tutorial.process) (d : string)
    (xs : list (nat * Tutorial.event)) :
  cl !! j = Some q →
  Forall (λ ix, Tutorial.concerns j d ix = false) xs →
  Tutorial.ip <$> Tutorial.run cl xs = Tutorial.ip <$> cl ∧
  (∃ q', Tutorial.run cl xs !! j = Some q' ∧
     SocketIO.connected (Tutorial.io q') !! d = SocketIO.connected (Tutorial.io q) !! d) ∧
  Tutorial.received_at j d (Tutorial.run cl xs) =
  Tutorial.received_at j d cl ++
  match SocketIO.connected (Tutorial.io q) !! d with
  | Some _ => Tutorial.written_at j cl xs
  | None => []
  end ∧
  (Forall (λ ix, ∀ pk, ix ≠ (j, Tutorial.Remote pk)) xs →
   Tutorial.written_at j cl xs =
   replicate (Tutorial.intervals_at j xs)
     (Packet "okok" (JStr (Tutorial.log0 (Tutorial.ip q))))).
Proof.
  intros Hq Hxs.
  enough (Hrun : Tutorial.ip <$> Tutorial.run cl xs = Tutorial.ip <$> cl ∧
    (∃ q', Tutorial.run cl xs !! j = Some q' ∧
       SocketIO.connected (Tutorial.io q') !! d = SocketIO.connected (Tutorial.io q) !! d) ∧
    Tutorial.received_at j d (Tutorial.run cl xs) =
    Tutorial.received_at j d cl ++
    match SocketIO.connected (Tutorial.io q) !! d with
    | Some _ => Tutorial.written_at j cl xs
    | None => []
    end).
  { destruct Hrun as (Hip & Hc & Hr). repeat split; [done..|].
    intros Hown. exact (written_at_own cl j q xs Hq Hown). }
  revert cl q Hq. induction xs as [|ix xs IH]; intros cl q Hq.
  - split; [done|]. split; [by exists q|]. unfold Tutorial.received_at. simpl.
    rewrite Hq. destruct (SocketIO.connected (Tutorial.io q) !! d); symmetry; apply app_nil_r.
  - apply Forall_cons in Hxs as [Hix Hxs].
    destruct (tutorial_step_delivery cl ix j q d Hq Hix) as (q1 & Hq1 & Hc1 & Hr1).
    destruct (IH Hxs (Tutorial.step cl ix) q1 Hq1) as (Hip & (q' & Hq' & Hc') & Hr).
    pose proof (tutorial_step_ip cl ix) as Hip1.
    change (Tutorial.run cl (ix :: xs)) with (Tutorial.run (Tutorial.step cl ix) xs).
    split; [by rewrite Hip|]. split; [exists q'; split; [done|congruence]|].
    rewrite Hr. unfold Tutorial.received_at. rewrite Hq1, Hq, Hr1, Hc1.
    rewrite <- app_assoc. f_equal.
    rewrite (written_at_ip _ _ j xs Hip1), (written_at_cons cl j ix xs).
    by destruct (SocketIO.connected (Tutorial.io q) !! d).
Qed.

(** Client Y on the second replica of the two-replica stack: the timer of
    the first replica, whose packet the adapter of the second then receives,
    a message of X, and the timer of the second. *)
Lemma tutorial_deliveries_in_a_run_witness :
  Tutorial.received_at 1 "Y"
    (Tutorial.run Scenario.stack
       [(0, Tutorial.Interval);
        (1, Tutorial.Remote (Packet "okok" (JStr "I am the host: 10.0.2.10. I am healty.")));
        (0, Tutorial.Message "X" "test000" (JStr "hi"));
        (1, Tutorial.Interval)]) =
  [Packet "okok" (JStr "I am the host: 10.0.2.10. I am healty.");
   Packet "okok" (JStr "I am the host: 10.0.2.11. I am healty.")].
Proof.
  exact (proj1 (proj2 (proj2 (tutorial_deliveries_in_a_run Scenario.stack 1
    (Tutorial.with_io (λ n, Tutorial.on_connection "Y" (SocketIO.accept "Y" None n))
       Scenario.server2) "Y"
    [(0, Tutorial.Interval);
     (1, Tutorial.Remote (Packet "okok" (JStr "I am the host: 10.0.2.10. I am healty.")));
     (0, Tutorial.Message "X" "test000" (JStr "hi"));
     (1, Tutorial.Interval)] eq_refl ltac:(repeat constructor))))).
Defined.

(** ** The routing of the stack *)

Lemma substring_app_l (k t : string) :
  String.substring 0 (String.length k) (k ++ t)%string = k.
Proof.
  induction k as [|c k IH]; [by destruct t|].
  change (String c (String.substring 0 (String.length k) (k ++ t)%string) = String c k).
  by rewrite IH.
Qed.

Lemma prefix_iff_app (p s : string) :
  String.prefix p s = true ↔ ∃ rest, s = (p ++ rest)%string.
Proof.
  rewrite String.prefix_correct. split.
  - revert s. induction p as [|a p IH]; intros s Hs; [by exists s|].
    destruct s as [|b s]; [done|]. simpl in Hs. injection Hs as -> Hs.
    destruct (IH s Hs) as [rest ->]. by exists rest.
  - intros [rest ->]. apply substring_app_l.
Qed.

(** X10. The proxy exposes no service by default; the labels of the
    compose file switch the replicas on and send a request to them exactly
    when its path starts with /wsk, and what they hand over is a
    request for the path / on port 5000: the path the socket.io server of the
    tutorial is set up with and the port it listens on. The Redis host the
    replicas are given is a service of the same stack. *)
Theorem stack_routes_wsk_to_the_server :
  (∀ path,
     Stack.route path =
     if String.prefix "/wsk" path
     then Some (pretty Tutorial.socketPort, Tutorial.path)
     else None) ∧
  (∀ path, is_Some (Stack.route path) ↔ ∃ rest, path = ("/wsk" ++ rest)%string) ∧
  Stack.exposed_by_default = false ∧
  Stack.label "traefik.enable" = Some "true" ∧
  Tutorial.redisHost Stack.process_env ∈ Stack.services.
Proof.
  assert (Hroute : ∀ path,
     Stack.route path =
     if String.prefix "/wsk" path
     then Some (pretty Tutorial.socketPort, Tutorial.path)
     else None).
  { intros path. unfold Stack.route.
    change (Stack.exposed_by_default ||
            bool_decide (Stack.label "traefik.enable" = Some "true")) with true.
    change (Stack.label "traefik.http.routers.socket-router.rule")
      with (Some "PathPrefix(`/wsk`)"). simpl.
    change (Stack.path_prefix "PathPrefix(`/wsk`)") with (Some "/wsk"). simpl.
    destruct (String.prefix "/wsk" path); [|done].
    change (Stack.label "traefik.http.services.service01.loadbalancer.server.port")
      with (Some "5000"). simpl.
    by change (Stack.replaced_path path) with "/". }
  split; [exact Hroute|]. split.
  - intros path. rewrite Hroute, <- prefix_iff_app.
    destruct (String.prefix "/wsk" path).
    + split; [done|by eexists].
    + split; [by intros [? ?]|done].
  - split; [reflexivity|]. split; [reflexivity|].
    change (Tutorial.redisHost Stack.process_env) with "redis".
    unfold Stack.services. by repeat constructor.
Qed.
